(** * R++ tree descent heuristic and midpoint space split (mlpack)

    A shallow embedding of

    - [RPlusPlusTreeDescentHeuristic::ChooseDescentNode] (both overloads) from
      r_plus_plus_tree_descent_heuristic_impl.hpp, and
    - [MidpointSpaceSplit::SplitSpace], declared in midpoint_space_split.hpp,
      and
    - [main] of lars_main.cpp, over the library calls it makes.

    Coordinates are C++ [double]s in the source.  They are modelled as exact
    rationals [Q]: only comparisons, one subtraction and one halving are used,
    and no statement below is about rounding, overflow or NaN. *)

From Stdlib Require Import List Bool Arith Lia QArith Qminmax Lqa.
From Stdlib Require String.
Import ListNotations.

Close Scope Q_scope.

(** ** Outcomes and a small state-and-failure monad *)

(** How a call can end.  [AssertionFailure] is [assert] aborting the process;
    [OutOfRange] is an indexed access outside its container; [OutOfFuel] only
    exists to make the loop combinator structurally recursive and is shown to
    be unreachable. *)
Inductive outcome (A : Type) : Type :=
| Returned (a : A)
| AssertionFailure
| OutOfRange
| OutOfFuel.

Arguments Returned {A} a.
Arguments AssertionFailure {A}.
Arguments OutOfRange {A}.
Arguments OutOfFuel {A}.

Module Exec.

(** A computation over a memory of type [S]: it ends with an outcome and
    leaves a memory behind. *)
Definition M (S A : Type) : Type := S -> outcome A * S.

Definition ret {S A} (a : A) : M S A := fun s => (Returned a, s).

Definition bind {S A B} (m : M S A) (k : A -> M S B) : M S B :=
  fun s =>
    match m s with
    | (Returned a, s') => k a s'
    | (AssertionFailure, s') => (AssertionFailure, s')
    | (OutOfRange, s') => (OutOfRange, s')
    | (OutOfFuel, s') => (OutOfFuel, s')
    end.

(** Read-only access to the memory. *)
Definition reads {S A} (f : S -> A) : M S A := fun s => (Returned (f s), s).

(** Read-only access that can fall outside its container. *)
Definition reads_opt {S A} (f : S -> option A) : M S A :=
  fun s => match f s with
           | Some a => (Returned a, s)
           | None => (OutOfRange, s)
           end.

(** Update of the memory. *)
Definition modify {S} (f : S -> S) : M S unit := fun s => (Returned tt, f s).

Definition abort {S A} : M S A := fun s => (AssertionFailure, s).

(** [assert(cond)] of <cassert>: a no-op when [NDEBUG] is defined, otherwise
    it aborts the process when [cond] is false. *)
Definition assert_ {S} (NDEBUG : bool) (cond : bool) : M S unit :=
  if NDEBUG then ret tt
  else if cond then ret tt else abort.

(** [for (size_t i = start; cond(i); i++) body(i)], where the body may leave
    the enclosing function with [return v] (then the loop yields [Some v]);
    [None] means the loop ran to its end. *)
Fixpoint for_ {S A} (fuel : nat) (cond : nat -> M S bool)
    (body : nat -> M S (option A)) (i : nat) : M S (option A) :=
  match fuel with
  | O => fun s => (OutOfFuel, s)
  | Datatypes.S fuel' =>
      bind (cond i) (fun c =>
        if c then
          bind (body i) (fun r =>
            match r with
            | Some v => ret (Some v)
            | None => for_ fuel' cond body (Datatypes.S i)
            end)
        else ret None)
  end.

End Exec.

Declare Scope exec_scope.
Delimit Scope exec_scope with exec.
Notation "x <- m ;; k" := (Exec.bind m (fun x => k))
  (at level 61, m at next level, right associativity) : exec_scope.
Notation "m ;;; k" := (Exec.bind m (fun _ => k))
  (at level 61, right associativity) : exec_scope.

(** ** Data model *)

(** A column of the dataset: the coordinates of one point. *)
Definition vec : Type := list Q.

(** The dataset matrix, column-indexed: one column per point. *)
Definition mat : Type := list vec.

(** [data.col(point)]. *)
Definition col (data : mat) (point : nat) : option vec := nth_error data point.

(** [math::Range]: one closed interval [lo, hi]. *)
Record Range : Type := MkRange { Lo : Q; Hi : Q }.

(** [bound::HRectBound]: one [Range] per dimension. *)
Definition HRectBound : Type := list Range.

(** Modelled from the spec: [HRectBound::Contains] lives in hrectbound.hpp,
    which is not among the sources.  The spec gives the containment test as
    "for every dimension d, min_d <= point_d <= max_d (closed interval)";
    a bound and a point of different dimensionality do not match. *)
Fixpoint Contains (b : HRectBound) (x : vec) : bool :=
  match b, x with
  | [], [] => true
  | r :: b', v :: x' => Qle_bool (Lo r) v && Qle_bool v (Hi r) && Contains b' x'
  | _, _ => false
  end.

(** [RPlusPlusTreeAuxiliaryInformation]: the outer bound of a node. *)
Record RPlusPlusTreeAuxiliaryInformation : Type :=
  MkAux { OuterBound : HRectBound }.

(** The part of [RectangleTree] that is reachable through a [TreeType*]:
    the primary bound, the auxiliary information, the owned point indices,
    the children (in construction order) and the dataset. *)
#[warnings="-register-all"]
Inductive TreeType : Type :=
  MkTree {
    Bound : HRectBound;
    AuxiliaryInfo : RPlusPlusTreeAuxiliaryInformation;
    Points : list nat;
    Children : list TreeType;
    Dataset : mat
  }.

Definition NumChildren (node : TreeType) : nat := length (Children node).

(** [node->Child(i)]. *)
Definition Child (node : TreeType) (i : nat) : option TreeType :=
  nth_error (Children node) i.

(** ** The descent heuristic *)

Module RPlusPlusTreeDescentHeuristic.

Import Exec.
Local Open Scope exec_scope.

(** [size_t ChooseDescentNode(TreeType* node, const size_t point)].

    The memory is the tree reachable from [node]; [NDEBUG] tells whether
    assertions are compiled out.  The first read of [NumChildren] only gives
    the loop its fuel; the loop condition reads it again at every turn, as
    the source does. *)
Definition ChooseDescentNode (NDEBUG : bool) (point : nat) : M TreeType nat :=
  n0 <- reads NumChildren ;;
  r <- for_ (S n0)
         (fun bestIndex =>
            n <- reads NumChildren ;;
            ret (bestIndex <? n))
         (fun bestIndex =>
            c <- reads_opt (fun node => Child node bestIndex) ;;
            x <- reads_opt (fun node => col (Dataset node) point) ;;
            if Contains (OuterBound (AuxiliaryInfo c)) x
            then ret (Some bestIndex)
            else ret None)
         0 ;;
  match r with
  | Some bestIndex => ret bestIndex
  | None =>
      (* We should never reach this point. *)
      assert_ NDEBUG false ;;;
      ret 0
  end.

(** [size_t ChooseDescentNode(const TreeType* /* node */,
                              const TreeType* /* insertedNode */)].
    Neither argument is named in the source, so neither can be read. *)
Definition ChooseDescentNode_subtree {S : Type} (NDEBUG : bool)
    (_ _ : TreeType) : M S nat :=
  (* Should never be used. *)
  assert_ NDEBUG false ;;;
  ret 0.

End RPlusPlusTreeDescentHeuristic.

(** ** The midpoint space split *)

(** [AxisParallelProjVector] plus split value: the hyperplane
    [x_Direction = SplitVal]. *)
Record Hyperplane : Type := MkHyperplane { Direction : nat; SplitVal : Q }.

(** The extent [max_d - min_d] of one dimension of a bound. *)
Definition extent (r : Range) : Q := (Hi r - Lo r)%Q.

(** The midpoint [(min_d + max_d) / 2] of one dimension of a bound. *)
Definition Mid (r : Range) : Q := ((Lo r + Hi r) / 2)%Q.

Module MidpointSpaceSplit.

Import Exec.
Local Open Scope exec_scope.

(** What the four reference parameters of
    [static bool SplitSpace(const BoundType& bound, const MatType& data,
                            const arma::Col<size_t>& points,
                            HyperplaneType& hyp)]
    refer to. *)
Record Args : Type :=
  MkArgs {
    bound : HRectBound;
    data : mat;
    points : list nat;
    hyp : Hyperplane
  }.

Definition set_hyp (h : Hyperplane) (a : Args) : Args :=
  MkArgs (bound a) (data a) (points a) h.

(** Modelled from the spec: the scan behind "argmax_d (max_d - min_d) over
    the bound's per-dimension extents; tie-break: lowest dimension index
    wins" (midpoint_space_split_impl.hpp is not among the sources).
    [best] is the widest dimension seen so far, with its range; a later
    dimension [d] replaces it only when strictly wider. *)
Fixpoint widest_from (b : HRectBound) (d : nat) (best : nat * Range)
    : nat * Range :=
  match b with
  | [] => best
  | r :: b' =>
      if Qle_bool (extent r) (extent (snd best))
      then widest_from b' (S d) best
      else widest_from b' (S d) (d, r)
  end.

(** Modelled from the spec: the dimension along which the bound is widest,
    none for a bound without dimensions. *)
Definition widest (b : HRectBound) : option (nat * Range) :=
  match b with
  | [] => None
  | r :: b' => Some (widest_from b' 1 (0, r))
  end.

(** Modelled from the spec: the body of [SplitSpace] is in
    midpoint_space_split_impl.hpp, which is not among the sources; only its
    declaration is.  Following section 4.2 of the spec: pick the widest
    dimension of the bound; when its extent is zero there is no separating
    hyperplane and the result is [false]; otherwise [hyp] becomes the
    hyperplane keyed to that dimension and to the midpoint of its extent,
    and the result is [true].  A widest extent below zero (a malformed
    bound, on which the spec is silent) is treated as degenerate too.  The
    dataset and the point indices are not consulted: the split is computed
    from the bound alone. *)
Definition SplitSpace : M Args bool :=
  b <- reads bound ;;
  match widest b with
  | None => ret false
  | Some (splitDim, r) =>
      if Qle_bool (extent r) 0
      then ret false
      else
        modify (set_hyp (MkHyperplane splitDim (Mid r))) ;;;
        ret true
  end.

End MidpointSpaceSplit.

(** ** Specification vocabulary *)

Import RPlusPlusTreeDescentHeuristic.
Import MidpointSpaceSplit.

(** The outer bound of child [i] of [node] contains the coordinates [x]. *)
Definition ChildContains (node : TreeType) (i : nat) (x : vec) : Prop :=
  exists c, Child node i = Some c /\
            Contains (OuterBound (AuxiliaryInfo c)) x = true.

(** The partition invariant of R++ trees over a region of space: every point
    of the region lies in the outer bound of exactly one child. *)
Definition PartitionInvariant (region : vec -> Prop) (node : TreeType) : Prop :=
  forall x, region x ->
    exists i, ChildContains node i x /\
              forall j, ChildContains node j x -> j = i.

(** The region of a node: what its own outer bound contains. *)
Definition InRegion (node : TreeType) (x : vec) : Prop :=
  Contains (OuterBound (AuxiliaryInfo node)) x = true.

(** What the scan of [ChooseDescentNode] computes on the children that are
    left, as a plain function: used to reason about the loop. *)
Fixpoint scan (cs : list TreeType) (ox : option vec) (i : nat)
    : outcome (option nat) :=
  match cs with
  | [] => Returned None
  | c :: cs' =>
      match ox with
      | None => OutOfRange
      | Some x =>
          if Contains (OuterBound (AuxiliaryInfo c)) x
          then Returned (Some i)
          else scan cs' ox (S i)
      end
  end.

(** What follows the scan. *)
Definition finish (NDEBUG : bool) (r : outcome (option nat)) : outcome nat :=
  match r with
  | Returned (Some i) => Returned i
  | Returned None => if NDEBUG then Returned 0 else AssertionFailure
  | AssertionFailure => AssertionFailure
  | OutOfRange => OutOfRange
  | OutOfFuel => OutOfFuel
  end.

(** The closed box of a bound, as the spec words it: in every dimension [d],
    [min_d <= point_d <= max_d]. *)
Definition InClosedBox (b : HRectBound) (x : vec) : Prop :=
  length b = length x /\
  forall d r v, nth_error b d = Some r -> nth_error x d = Some v ->
                (Lo r <= v /\ v <= Hi r)%Q.

(** [w] is the widest per-dimension extent of the bound [b]. *)
Definition WidestExtentIs (b : HRectBound) (w : Q) : Prop :=
  (exists d r, nth_error b d = Some r /\ (extent r == w)%Q) /\
  (forall d r, nth_error b d = Some r -> (extent r <= w)%Q).

(** Dimension [d], with range [r], is the lowest-indexed dimension of maximal
    extent of the bound [b]. *)
Definition IsWidest (b : HRectBound) (d : nat) (r : Range) : Prop :=
  nth_error b d = Some r /\
  (forall d' r', nth_error b d' = Some r' -> (extent r' <= extent r)%Q) /\
  (forall d' r', d' < d -> nth_error b d' = Some r' ->
                 (extent r' < extent r)%Q).

(** ** Example trees *)

Definition range (lo hi : Z) : Range := MkRange (inject_Z lo) (inject_Z hi).

(** Three one-dimensional points: 5/2, 1/2 and 7. *)
Definition example_data : mat := [[5 # 2]; [1 # 2]; [7 # 1]]%Q.

Definition example_leaf (b : HRectBound) (pts : list nat) : TreeType :=
  MkTree b (MkAux b) pts [] example_data.

(** A node over [2, 3] with two children, over [0, 1] and over [2, 3]. *)
Definition example_node : TreeType :=
  MkTree [range 2 3] (MkAux [range 2 3]) []
         [example_leaf [range 0 1] [1]; example_leaf [range 2 3] [0]]
         example_data.

(** The same outer bounds and the same point coordinates, everything else
    different. *)
Definition example_node' : TreeType :=
  MkTree [range 0 9] (MkAux [range 0 9]) [4]
         [example_leaf [range 0 1] []; example_leaf [range 2 3] []]
         [[0 # 1]; [5 # 2]]%Q.

(** The bounds of the spec's examples. *)
Definition bound_10_2_5 : HRectBound := [range 0 10; range 0 2; range 0 5].
Definition bound_point_3_4 : HRectBound := [range 3 3; range 4 4].
Definition bound_10_10 : HRectBound := [range 0 10; range 0 10].

Definition example_args (b : HRectBound) : Args :=
  MkArgs b [[0 # 1]; [1 # 1]]%Q [0; 1] (MkHyperplane 7 0).

(** ** The LARS executable *)

(** What [main] of lars_main.cpp uses of Armadillo's [mat]: the shape and the
    elements.  A matrix keeps its number of rows beside its columns, so that
    a matrix without columns still has a number of rows. *)
Module Arma.

Record Mat : Type := MkMat { n_rows : nat; columns : mat }.

Definition n_cols (m : Mat) : nat := length (columns m).

Definition n_elem (m : Mat) : nat := n_rows m * n_cols m.

(** Every column has [n_rows] elements: what Armadillo keeps of every
    matrix. *)
Definition well_formed (m : Mat) : Prop :=
  Forall (fun c => length c = n_rows m) (columns m).

(** [trans(m)]: row [i] of [m] becomes column [i]. *)
Definition trans (m : Mat) : Mat :=
  MkMat (n_cols m)
        (map (fun i => map (fun c => nth i c 0%Q) (columns m))
             (seq 0 (n_rows m))).

(** [m.unsafe_col(j)], with the bounds check of [Mat::unsafe_col]. *)
Definition unsafe_col (m : Mat) (j : nat) : option vec :=
  nth_error (columns m) j.

End Arma.

Module LarsMain.

Import Arma.
Import String.StringSyntax.
Local Open Scope string_scope.

(** The values [CLI::GetParam] yields once the command line is parsed. *)
Record Params : Type :=
  MkParams {
    lambda1 : Q;
    lambda2 : Q;
    use_cholesky : bool;
    input_file : String.string;
    responses_file : String.string;
    output_file : String.string
  }.

(** How a run of the executable ends. *)
Inductive exit : Type :=
| LoadFatal (file : String.string)
    (* data::Load(file, m, true) failed: with fatal = true that ends the run *)
| LogFatal (msg : String.string)
    (* a message sent to Log::Fatal, which ends the run *)
| ColumnOutOfBounds
    (* unsafe_col(0) on a matrix without columns *)
| Saved (file : String.string) (beta : vec).
    (* beta.save(file, raw_ascii) *)

(** [int main(int argc, char* argv[])].

    The library calls are parameters: [Load file] is the matrix
    [data::Load(file, m, true)] fills in, if it succeeds, and
    [Solution useCholesky lambda1 lambda2 X y] is the vector
    [lars.Solution(beta)] yields after [LARS lars(useCholesky, lambda1,
    lambda2)] and [lars.DoLARS(X, y)]. *)
Definition main
    (Load : String.string -> option Mat)
    (Solution : bool -> Q -> Q -> Mat -> vec -> vec)
    (params : Params) : exit :=
  (* Handle parameters, *)
  let lambda1 := lambda1 params in
  let lambda2 := lambda2 params in
  let useCholesky := use_cholesky params in
  (* Load covariates. *)
  let matXFilename := input_file params in
  match Load matXFilename with
  | None => LoadFatal matXFilename
  | Some matX =>
      (* Load targets. *)
      let yFilename := responses_file params in
      match Load yFilename with
      | None => LoadFatal yFilename
      | Some matY =>
          (* Make sure y is oriented the right way. *)
          let matY := if n_rows matY =? 1 then trans matY else matY in
          if 1 <? n_cols matY
          then LogFatal "Only one column or row allowed in responses file!"
          else
            if negb (n_elem matY =? n_cols matX)
            then LogFatal
                   "Number of responses must be equal to number of rows of X!"
            else
              (* Do LARS. *)
              match unsafe_col matY 0 with
              | None => ColumnOutOfBounds
              | Some y =>
                  (* Get and save solution. *)
                  let beta :=
                    Solution useCholesky lambda1 lambda2 (trans matX) y in
                  let betaFilename := output_file params in
                  Saved betaFilename beta
              end
      end
  end.

Definition only_one_column_or_row : String.string :=
  "Only one column or row allowed in responses file!".

Definition number_of_responses : String.string :=
  "Number of responses must be equal to number of rows of X!".

End LarsMain.

(** The two messages [main] sends to [Log::Fatal]. *)
Definition msg_one_column_or_row : String.string :=
  LarsMain.only_one_column_or_row.
Definition msg_number_of_responses : String.string :=
  LarsMain.number_of_responses.

(** The responses after the orientation step of [main]. *)
Definition oriented (matY : Arma.Mat) : Arma.Mat :=
  if Arma.n_rows matY =? 1 then Arma.trans matY else matY.

(** Example matrices: covariates for three points in two dimensions, and
    the three responses as one row, as one column and as a 2 x 2 matrix. *)
Definition example_X : Arma.Mat :=
  Arma.MkMat 2 [[1 # 1; 2 # 1]; [3 # 1; 4 # 1]; [5 # 1; 6 # 1]]%Q.
Definition example_y_row : Arma.Mat :=
  Arma.MkMat 1 [[7 # 1]; [8 # 1]; [9 # 1]]%Q.
Definition example_y_col : Arma.Mat :=
  Arma.MkMat 3 [[7 # 1; 8 # 1; 9 # 1]]%Q.
Definition example_y_square : Arma.Mat :=
  Arma.MkMat 2 [[7 # 1; 8 # 1]; [9 # 1; 0 # 1]]%Q.
Definition example_y_empty : Arma.Mat := Arma.MkMat 0 [].
Definition example_X_empty : Arma.Mat := Arma.MkMat 2 [].

Import String.StringSyntax.
Open Scope string_scope.

Definition example_params : LarsMain.Params :=
  LarsMain.MkParams 0 0 false "X.csv" "y.csv" "beta.csv".

Close Scope string_scope.

(** A loader that knows the two input files of [example_params]. *)
Definition example_Load (matX matY : Arma.Mat) (file : String.string)
    : option Arma.Mat :=
  if String.eqb file (LarsMain.input_file example_params) then Some matX
  else if String.eqb file (LarsMain.responses_file example_params)
       then Some matY
       else None.

(** A stand-in for the solver: it hands the responses back. *)
Definition example_Solution (_ : bool) (_ _ : Q) (_ : Arma.Mat) (y : vec)
    : vec := y.

(** ** The loop of [ChooseDescentNode] *)

Lemma skipn_past (A : Type) (l : list A) (i : nat) :
  length l <= i -> skipn i l = [].
Proof.
  revert i; induction l as [|a l IH]; intros [|i] H; simpl in *;
    try reflexivity; try lia.
  apply IH; lia.
Qed.

Lemma skipn_at (A : Type) (l : list A) (i : nat) (a : A) :
  nth_error l i = Some a -> skipn i l = a :: skipn (S i) l.
Proof.
  revert i; induction l as [|b l IH]; intros [|i] H; simpl in *;
    try discriminate.
  - now inversion H.
  - now apply IH.
Qed.

(** With enough fuel the loop started at [i] computes [scan] on the
    children from [i] on, and leaves the tree as it found it. *)
Lemma for_scan (point : nat) (fuel : nat) :
  forall (i : nat) (node : TreeType),
    NumChildren node - i < fuel ->
    Exec.for_ fuel
      (fun bestIndex =>
         n <- Exec.reads NumChildren ;;
         Exec.ret (bestIndex <? n))%exec
      (fun bestIndex =>
         c <- Exec.reads_opt (fun node => Child node bestIndex) ;;
         x <- Exec.reads_opt (fun node => col (Dataset node) point) ;;
         if Contains (OuterBound (AuxiliaryInfo c)) x
         then Exec.ret (Some bestIndex)
         else Exec.ret None)%exec
      i node =
    (scan (skipn i (Children node)) (col (Dataset node) point) i, node).
Proof.
  set (cond := fun bestIndex : nat => _).
  set (body := fun bestIndex : nat => _).
  induction fuel as [|fuel IH]; intros i node Hfuel; [lia|].
  cbn [Exec.for_]. unfold Exec.bind at 1.
  assert (Hcond : cond i node = (Returned (i <? NumChildren node), node))
    by reflexivity.
  rewrite Hcond.
  destruct (i <? NumChildren node) eqn:Hlt.
  - apply Nat.ltb_lt in Hlt.
    destruct (nth_error (Children node) i) as [c|] eqn:Hc.
    2:{ apply nth_error_None in Hc. unfold NumChildren in Hlt. lia. }
    rewrite (skipn_at _ _ _ _ Hc). cbn [scan].
    unfold Exec.bind at 1.
    assert (Hbody : body i node =
              match col (Dataset node) point with
              | Some x =>
                  if Contains (OuterBound (AuxiliaryInfo c)) x
                  then (Returned (Some i), node)
                  else (Returned None, node)
              | None => (OutOfRange, node)
              end).
    { unfold body, Exec.bind, Exec.reads_opt, Child. rewrite Hc.
      destruct (col (Dataset node) point) as [x|]; [|reflexivity].
      destruct (Contains (OuterBound (AuxiliaryInfo c)) x); reflexivity. }
    rewrite Hbody.
    destruct (col (Dataset node) point) as [x|] eqn:Hx; [|reflexivity].
    destruct (Contains (OuterBound (AuxiliaryInfo c)) x).
    + reflexivity.
    + rewrite <- Hx. apply IH. lia.
  - apply Nat.ltb_ge in Hlt.
    rewrite skipn_past by exact Hlt. reflexivity.
Qed.

(** [ChooseDescentNode] as a whole: the scan from child 0, then the
    fall-through; the tree is left as it was. *)
Lemma ChooseDescentNode_scan (NDEBUG : bool) (point : nat) (node : TreeType) :
  ChooseDescentNode NDEBUG point node =
    (finish NDEBUG (scan (Children node) (col (Dataset node) point) 0), node).
Proof.
  unfold ChooseDescentNode.
  unfold Exec.bind at 1, Exec.reads at 1.
  unfold Exec.bind at 1.
  rewrite for_scan by lia. simpl skipn.
  destruct (scan (Children node) (col (Dataset node) point) 0)
    as [[k|]| | |]; try reflexivity.
  destruct NDEBUG; reflexivity.
Qed.

(** The fuel given to the loop is enough: no call runs out of it. *)
Lemma scan_never_out_of_fuel (cs : list TreeType) (ox : option vec) :
  forall i, scan cs ox i <> OutOfFuel.
Proof.
  induction cs as [|c cs IH]; intros i; simpl; [discriminate|].
  destruct ox as [x|]; [|discriminate].
  destruct (Contains (OuterBound (AuxiliaryInfo c)) x); [discriminate|apply IH].
Qed.

Lemma ChooseDescentNode_terminates
    (NDEBUG : bool) (point : nat) (node : TreeType) :
  fst (ChooseDescentNode NDEBUG point node) <> OutOfFuel.
Proof.
  rewrite ChooseDescentNode_scan. simpl.
  pose proof (scan_never_out_of_fuel (Children node)
                (col (Dataset node) point) 0) as H.
  destruct (scan (Children node) (col (Dataset node) point) 0)
    as [[k|]| | |]; simpl; try discriminate; try congruence.
  destruct NDEBUG; discriminate.
Qed.

(** ** Properties of the scan *)

Lemma scan_found (cs : list TreeType) (x : vec) :
  forall i k,
    scan cs (Some x) i = Returned (Some k) ->
    exists j c,
      k = i + j /\ nth_error cs j = Some c /\
      Contains (OuterBound (AuxiliaryInfo c)) x = true /\
      forall j' c', j' < j -> nth_error cs j' = Some c' ->
                    Contains (OuterBound (AuxiliaryInfo c')) x = false.
Proof.
  induction cs as [|c cs IH]; intros i k H; simpl in H; [discriminate|].
  destruct (Contains (OuterBound (AuxiliaryInfo c)) x) eqn:Hc.
  - inversion H; subst. exists 0, c. repeat split; auto; try lia.
  - destruct (IH _ _ H) as (j & c0 & -> & Hn & Hin & Hbefore).
    exists (S j), c0. repeat split; auto; try lia.
    intros [|j'] c' Hlt Hn'; simpl in Hn'.
    + now inversion Hn'; subst.
    + apply (Hbefore j'); auto; lia.
Qed.

Lemma scan_not_found (cs : list TreeType) (x : vec) :
  forall i,
    scan cs (Some x) i = Returned None <->
    (forall j c, nth_error cs j = Some c ->
                 Contains (OuterBound (AuxiliaryInfo c)) x = false).
Proof.
  induction cs as [|c cs IH]; intros i; simpl.
  - split; [|reflexivity]. intros _ [|j] c' H; discriminate.
  - destruct (Contains (OuterBound (AuxiliaryInfo c)) x) eqn:Hc.
    + split; [discriminate|]. intros H. specialize (H 0 c eq_refl). congruence.
    + rewrite IH. split.
      * intros H [|j] c' Hn; simpl in Hn; [now inversion Hn; subst|eauto].
      * intros H j c' Hn. apply (H (S j)). exact Hn.
Qed.

(** On a point of the dataset the scan always comes to an end with a
    result: it never fails and never runs out of fuel. *)
Lemma scan_returns (cs : list TreeType) (x : vec) :
  forall i, exists r, scan cs (Some x) i = Returned r.
Proof.
  induction cs as [|c cs IH]; intros i; simpl; eauto.
  destruct (Contains (OuterBound (AuxiliaryInfo c)) x); eauto.
Qed.

(** The scan looks at nothing but the children's outer bounds. *)
Lemma scan_outer_bounds (cs1 : list TreeType) :
  forall cs2 ox i,
    map (fun c => OuterBound (AuxiliaryInfo c)) cs1 =
    map (fun c => OuterBound (AuxiliaryInfo c)) cs2 ->
    scan cs1 ox i = scan cs2 ox i.
Proof.
  induction cs1 as [|c1 cs1 IH]; intros [|c2 cs2] ox i H; simpl in *;
    try discriminate; try reflexivity.
  inversion H as [[Hb Hrest]]. destruct ox as [x|]; [|reflexivity].
  rewrite Hb. destruct (Contains (OuterBound (AuxiliaryInfo c2)) x); auto.
Qed.

Lemma not_contained_iff (node : TreeType) (x : vec) :
  (forall i, ~ ChildContains node i x) <->
  (forall j c, nth_error (Children node) j = Some c ->
               Contains (OuterBound (AuxiliaryInfo c)) x = false).
Proof.
  unfold ChildContains, Child. split.
  - intros H j c Hn.
    destruct (Contains (OuterBound (AuxiliaryInfo c)) x) eqn:Hc; auto.
    exfalso. apply (H j). eauto.
  - intros H i (c & Hn & Hc). rewrite (H _ _ Hn) in Hc. discriminate.
Qed.

Lemma scan_no_child_contains (node : TreeType) (x : vec) (i : nat) :
  (forall j, ~ ChildContains node j x) ->
  scan (Children node) (Some x) i = Returned None.
Proof.
  intros H. apply (proj2 (scan_not_found (Children node) x i)).
  exact (proj1 (not_contained_iff node x) H).
Qed.

(** When some child contains the point, [ChooseDescentNode] returns the
    first such child, whatever the build. *)
Lemma ChooseDescentNode_first (NDEBUG : bool) (node : TreeType)
    (point : nat) (x : vec) (i : nat) :
  col (Dataset node) point = Some x ->
  ChildContains node i x ->
  exists k,
    RPlusPlusTreeDescentHeuristic.ChooseDescentNode NDEBUG point node
      = (Returned k, node) /\
    k <= i /\ k < NumChildren node /\
    ChildContains node k x /\
    forall j, j < k -> ~ ChildContains node j x.
Proof.
  intros Hx Hi. rewrite ChooseDescentNode_scan, Hx.
  destruct (scan_returns (Children node) x 0) as [[k|] Hr].
  - rewrite Hr. simpl.
    destruct (scan_found _ _ _ _ Hr) as (j & c & -> & Hn & Hc & Hbefore).
    simpl. exists j. split; [reflexivity|].
    assert (Hlt : j < NumChildren node).
    { unfold NumChildren. apply nth_error_Some. congruence. }
    assert (Hle : j <= i).
    { destruct (le_lt_dec j i) as [|Hgt]; auto.
      destruct Hi as (ci & Hci & Hcon).
      rewrite (Hbefore i ci Hgt Hci) in Hcon. discriminate. }
    repeat split; auto.
    + exists c. split; auto.
    + intros j' Hj' (c' & Hn' & Hc').
      rewrite (Hbefore j' c' Hj' Hn') in Hc'. discriminate.
  - exfalso.
    apply (proj2 (not_contained_iff node x)
             (proj1 (scan_not_found (Children node) x 0) Hr) i Hi).
Qed.

(** ** The containment test *)

Lemma Contains_closed_box (b : HRectBound) :
  forall x, Contains b x = true <-> InClosedBox b x.
Proof.
  unfold InClosedBox.
  induction b as [|r b IH]; intros [|v x]; simpl.
  - split; auto. intros _. split; auto. intros [|d] ? ? H; discriminate.
  - split; [discriminate|]. intros [H _]; discriminate.
  - split; [discriminate|]. intros [H _]; discriminate.
  - rewrite !andb_true_iff, !Qle_bool_iff, IH. split.
    + intros [[Hlo Hhi] [Hlen Hall]]. split; [congruence|].
      intros [|d] r' v' Hr Hv; simpl in *.
      * inversion Hr; inversion Hv; subst. auto.
      * eauto.
    + intros [Hlen Hall]. split; [|split].
      * apply (Hall 0 r v); reflexivity.
      * now inversion Hlen.
      * intros d r' v' Hr Hv. apply (Hall (S d)); assumption.
Qed.

(** ** Facts about the example trees *)
Lemma example_node_partition :
  PartitionInvariant (InRegion example_node) example_node.
Proof.
  intros x Hx. exists 1. split.
  - exists (example_leaf [range 2 3] [0]). split; [reflexivity|exact Hx].
  - intros [|[|j]] (c & Hc & Hin); unfold Child in Hc; simpl in Hc.
    + exfalso. inversion Hc; subst c; clear Hc.
      unfold InRegion in Hx. simpl in Hx, Hin.
      destruct x as [|v [|? ?]]; simpl in *; try discriminate;
        try (rewrite andb_false_r in Hx; discriminate).
      rewrite !andb_true_iff, !Qle_bool_iff in Hx, Hin.
      unfold inject_Z in *. lra.
    + reflexivity.
    + destruct j; discriminate.
Qed.

Lemma example_node_none_contains_7 :
  forall i, ~ ChildContains example_node i [7 # 1]%Q.
Proof.
  intros [|[|j]] (c & Hc & Hin); unfold Child in Hc; simpl in Hc.
  - inversion Hc; subst c. discriminate.
  - inversion Hc; subst c. discriminate.
  - destruct j; discriminate.
Qed.

(** ** Claims about the descent heuristic *)

(** C1 (descent coverage).  For a node whose children's outer bounds
    partition a region and a point of the dataset lying in that region,
    [ChooseDescentNode] returns a child index [i] below [NumChildren] such
    that the point lies within child [i]'s outer bound and within no other
    child's outer bound.  This holds with assertions enabled or compiled
    out. *)
Theorem ChooseDescentNode_descent_coverage
    (NDEBUG : bool) (region : vec -> Prop) (node : TreeType)
    (point : nat) (x : vec) :
  PartitionInvariant region node ->
  col (Dataset node) point = Some x ->
  region x ->
  exists i,
    ChooseDescentNode NDEBUG point node = (Returned i, node) /\
    i < NumChildren node /\
    ChildContains node i x /\
    forall j, j <> i -> ~ ChildContains node j x.
Proof.
  intros Hinv Hx Hreg.
  destruct (Hinv x Hreg) as (i0 & Hi0 & Huniq).
  destruct (ChooseDescentNode_first NDEBUG node point x i0 Hx Hi0)
    as (k & Hrun & _ & Hlt & Hk & _).
  exists k. repeat split; auto.
  intros j Hj Hcj. apply Hj.
  rewrite (Huniq j Hcj), (Huniq k Hk). reflexivity.
Qed.

Lemma ChooseDescentNode_descent_coverage_witness :
  exists i,
    ChooseDescentNode false 0 example_node = (Returned i, example_node) /\
    i < NumChildren example_node /\
    ChildContains example_node i [5 # 2]%Q /\
    forall j, j <> i -> ~ ChildContains example_node j [5 # 2]%Q.
Proof.
  apply (ChooseDescentNode_descent_coverage
           false (InRegion example_node) example_node 0 [5 # 2]%Q).
  - exact example_node_partition.
  - reflexivity.
  - reflexivity.
Defined.

(** C3, as amended.  In a build with assertions enabled ([NDEBUG] not
    defined), for every node and every point of the dataset that no child's
    outer bound contains, [ChooseDescentNode] ends in the assertion failure:
    it aborts and returns no child index. *)
Theorem ChooseDescentNode_no_match_aborts
    (node : TreeType) (point : nat) (x : vec) :
  col (Dataset node) point = Some x ->
  (forall i, ~ ChildContains node i x) ->
  ChooseDescentNode false point node = (AssertionFailure, node).
Proof.
  intros Hx Hnone. rewrite ChooseDescentNode_scan, Hx.
  rewrite (scan_no_child_contains node x 0 Hnone). reflexivity.
Qed.

Lemma ChooseDescentNode_no_match_aborts_witness :
  ChooseDescentNode false 2 example_node = (AssertionFailure, example_node).
Proof.
  apply (ChooseDescentNode_no_match_aborts example_node 2 [7 # 1]%Q).
  - reflexivity.
  - exact example_node_none_contains_7.
Defined.

(** C3 as stated fails when assertions are compiled out: point 2 of the
    example dataset (coordinate 7) lies in no child's outer bound, and the
    call returns child index 0 instead of aborting. *)
Lemma ChooseDescentNode_no_match_fallback :
  col (Dataset example_node) 2 = Some [7 # 1]%Q /\
  (forall i, ~ ChildContains example_node i [7 # 1]%Q) /\
  ChooseDescentNode true 2 example_node = (Returned 0, example_node).
Proof.
  split; [reflexivity|]. split; [exact example_node_none_contains_7|].
  reflexivity.
Qed.

(** C5 (scan order and containment).  When some child's outer bound contains
    the point, [ChooseDescentNode] returns the lowest child index whose outer
    bound contains it: every child before it, in the order of the children,
    does not contain the point.  Containment is the closed-interval test
    [min_d <= point_d <= max_d] in every dimension. *)
Theorem ChooseDescentNode_first_containing_child
    (NDEBUG : bool) (node : TreeType) (point : nat) (x : vec) (i : nat) :
  col (Dataset node) point = Some x ->
  ChildContains node i x ->
  exists k c,
    ChooseDescentNode NDEBUG point node = (Returned k, node) /\
    k <= i /\
    Child node k = Some c /\
    InClosedBox (OuterBound (AuxiliaryInfo c)) x /\
    (forall j, j < k -> ~ ChildContains node j x) /\
    (forall j, ChildContains node j x <->
               exists cj, Child node j = Some cj /\
                          InClosedBox (OuterBound (AuxiliaryInfo cj)) x).
Proof.
  intros Hx Hi.
  destruct (ChooseDescentNode_first NDEBUG node point x i Hx Hi)
    as (k & Hrun & Hle & _ & (c & Hc & Hin) & Hbefore).
  exists k, c.
  split; [exact Hrun|]. split; [exact Hle|]. split; [exact Hc|].
  split; [now apply Contains_closed_box|]. split; [exact Hbefore|].
  intros j. unfold ChildContains.
  split; intros (cj & Hcj & Hj); exists cj; (split; [exact Hcj|]);
    now apply Contains_closed_box.
Qed.

Lemma ChooseDescentNode_first_containing_child_witness :
  exists k c,
    ChooseDescentNode true 0 example_node = (Returned k, example_node) /\
    k <= 1 /\
    Child example_node k = Some c /\
    InClosedBox (OuterBound (AuxiliaryInfo c)) [5 # 2]%Q /\
    (forall j, j < k -> ~ ChildContains example_node j [5 # 2]%Q) /\
    (forall j, ChildContains example_node j [5 # 2]%Q <->
               exists cj, Child example_node j = Some cj /\
                          InClosedBox (OuterBound (AuxiliaryInfo cj))
                                      [5 # 2]%Q).
Proof.
  apply (ChooseDescentNode_first_containing_child
           true example_node 0 [5 # 2]%Q 1).
  - reflexivity.
  - exists (example_leaf [range 2 3] [0]). split; reflexivity.
Defined.

(** C6, as amended.  In a build with assertions enabled, the
    subtree-insertion overload ends in the assertion failure on every pair of
    arguments and in every memory: it returns no child index and changes
    nothing. *)
Theorem ChooseDescentNode_subtree_aborts
    (S : Type) (node insertedNode : TreeType) (s : S) :
  ChooseDescentNode_subtree false node insertedNode s = (AssertionFailure, s).
Proof. reflexivity. Qed.

(** C6 as stated fails when assertions are compiled out: the overload then
    returns the child index 0. *)
Lemma ChooseDescentNode_subtree_fallback :
  ChooseDescentNode_subtree true example_node example_node' tt
    = (Returned 0, tt).
Proof. reflexivity. Qed.

(** C8 (determinism and purity).  [ChooseDescentNode] leaves the tree (the
    node, its children and the dataset) exactly as it found it, and its
    outcome is a function of the children's outer bounds and of the point's
    coordinates alone: two calls that agree on these end with the same
    outcome, so two calls on identical inputs do. *)
Theorem ChooseDescentNode_pure
    (NDEBUG : bool) (node1 node2 : TreeType) (point1 point2 : nat) :
  map (fun c => OuterBound (AuxiliaryInfo c)) (Children node1) =
  map (fun c => OuterBound (AuxiliaryInfo c)) (Children node2) ->
  col (Dataset node1) point1 = col (Dataset node2) point2 ->
  fst (ChooseDescentNode NDEBUG point1 node1) =
  fst (ChooseDescentNode NDEBUG point2 node2) /\
  snd (ChooseDescentNode NDEBUG point1 node1) = node1 /\
  snd (ChooseDescentNode NDEBUG point2 node2) = node2.
Proof.
  intros Hb Hc. rewrite !ChooseDescentNode_scan. simpl.
  rewrite Hc, (scan_outer_bounds _ _ _ _ Hb). auto.
Qed.

Lemma ChooseDescentNode_pure_witness :
  fst (ChooseDescentNode false 0 example_node) =
  fst (ChooseDescentNode false 1 example_node') /\
  snd (ChooseDescentNode false 0 example_node) = example_node /\
  snd (ChooseDescentNode false 1 example_node') = example_node'.
Proof.
  apply (ChooseDescentNode_pure false example_node example_node' 0 1);
    reflexivity.
Defined.

(** C10 (assertions compiled out).  With [NDEBUG] defined both overloads are
    total and return child index 0 on the fall-through path: the point
    overload for every point of the dataset that no child's outer bound
    contains and for every node without children; the subtree overload for
    every pair of arguments, which it does not read. *)
Theorem ChooseDescentNode_ndebug_returns_0 :
  (forall (node : TreeType) (point : nat) (x : vec),
      col (Dataset node) point = Some x ->
      (forall i, ~ ChildContains node i x) ->
      ChooseDescentNode true point node = (Returned 0, node)) /\
  (forall (node : TreeType) (point : nat),
      NumChildren node = 0 ->
      ChooseDescentNode true point node = (Returned 0, node)) /\
  (forall (S : Type) (node insertedNode node' insertedNode' : TreeType) (s : S),
      ChooseDescentNode_subtree true node insertedNode s = (Returned 0, s) /\
      ChooseDescentNode_subtree true node insertedNode s =
      ChooseDescentNode_subtree true node' insertedNode' s).
Proof.
  split; [|split].
  - intros node point x Hx Hnone. rewrite ChooseDescentNode_scan, Hx.
    rewrite (scan_no_child_contains node x 0 Hnone). reflexivity.
  - intros node point H0. rewrite ChooseDescentNode_scan.
    unfold NumChildren in H0. apply length_zero_iff_nil in H0.
    rewrite H0. reflexivity.
  - intros. split; reflexivity.
Qed.

Lemma ChooseDescentNode_ndebug_returns_0_witness :
  ChooseDescentNode true 2 example_node = (Returned 0, example_node) /\
  ChooseDescentNode true 5 (example_leaf [range 0 1] [1])
    = (Returned 0, example_leaf [range 0 1] [1]).
Proof.
  split.
  - apply (proj1 ChooseDescentNode_ndebug_returns_0 example_node 2 [7 # 1]%Q).
    + reflexivity.
    + exact example_node_none_contains_7.
  - apply (proj1 (proj2 ChooseDescentNode_ndebug_returns_0)).
    reflexivity.
Defined.

(** ** The widest dimension of a bound *)


Lemma Qle_bool_false (x y : Q) : Qle_bool x y = false -> (y < x)%Q.
Proof.
  intros H. apply Qnot_le_lt. intros Hle.
  apply Qle_bool_iff in Hle. congruence.
Qed.

Lemma nth_error_snoc (A : Type) (l : list A) (a : A) (i : nat) (x : A) :
  nth_error (l ++ [a]) i = Some x ->
  (i < length l /\ nth_error l i = Some x) \/ (i = length l /\ x = a).
Proof.
  intros H. destruct (lt_dec i (length l)) as [Hlt|Hge].
  - left. split; auto. now rewrite nth_error_app1 in H.
  - right. rewrite nth_error_app2 in H by lia.
    destruct (i - length l) as [|k] eqn:Hk; simpl in H.
    + split; [lia|congruence].
    + destruct k; discriminate.
Qed.

Lemma IsWidest_snoc (pre : HRectBound) (r : Range) (best : nat * Range) :
  IsWidest pre (fst best) (snd best) ->
  IsWidest (pre ++ [r])
    (fst (if Qle_bool (extent r) (extent (snd best))
          then best else (length pre, r)))
    (snd (if Qle_bool (extent r) (extent (snd best))
          then best else (length pre, r))).
Proof.
  destruct best as [db rb]. simpl. intros (Hn & Hmax & Hlow).
  assert (Hdb : db < length pre) by (apply nth_error_Some; congruence).
  destruct (Qle_bool (extent r) (extent rb)) eqn:Hcmp; simpl.
  - apply Qle_bool_iff in Hcmp. split; [|split].
    + rewrite nth_error_app1 by exact Hdb. exact Hn.
    + intros d' r' H'. destruct (nth_error_snoc _ _ _ _ _ H') as [[_ H]|[_ ->]].
      * eapply Hmax; eauto.
      * exact Hcmp.
    + intros d' r' Hlt H'.
      destruct (nth_error_snoc _ _ _ _ _ H') as [[_ H]|[Hd _]]; [|lia].
      eapply Hlow; eauto.
  - apply Qle_bool_false in Hcmp. split; [|split].
    + rewrite nth_error_app2 by lia. now rewrite Nat.sub_diag.
    + intros d' r' H'. destruct (nth_error_snoc _ _ _ _ _ H') as [[_ H]|[_ ->]].
      * specialize (Hmax _ _ H). lra.
      * apply Qle_refl.
    + intros d' r' Hlt H'.
      destruct (nth_error_snoc _ _ _ _ _ H') as [[_ H]|[Hd _]]; [|lia].
      specialize (Hmax _ _ H). lra.
Qed.

Lemma widest_from_spec (b : HRectBound) :
  forall (pre : HRectBound) (best : nat * Range),
    IsWidest pre (fst best) (snd best) ->
    IsWidest (pre ++ b)
      (fst (widest_from b (length pre) best))
      (snd (widest_from b (length pre) best)).
Proof.
  induction b as [|r b IH]; intros pre best Hbest; simpl.
  - now rewrite app_nil_r.
  - pose proof (IsWidest_snoc pre r best Hbest) as Hstep.
    replace (pre ++ r :: b) with ((pre ++ [r]) ++ b)
      by (now rewrite <- app_assoc).
    replace (S (length pre)) with (length (pre ++ [r]))
      by (rewrite length_app; simpl; lia).
    destruct (Qle_bool (extent r) (extent (snd best))); now apply IH.
Qed.

Lemma widest_spec (b : HRectBound) (d : nat) (r : Range) :
  widest b = Some (d, r) -> IsWidest b d r.
Proof.
  destruct b as [|r0 b]; simpl; [discriminate|]. intros H.
  pose proof (widest_from_spec b [r0] (0, r0)) as Hw. simpl in Hw.
  inversion H as [Heq]. rewrite Heq in Hw. simpl in Hw. apply Hw.
  split; [reflexivity|]. split.
  - intros [|d'] r' H'; simpl in H'.
    + inversion H'. apply Qle_refl.
    + destruct d'; discriminate.
  - intros d' r' Hlt; lia.
Qed.

Lemma widest_some (b : HRectBound) (d : nat) (r : Range) :
  nth_error b d = Some r -> exists d0 r0, widest b = Some (d0, r0).
Proof.
  destruct b as [|r0 b]; [destruct d; discriminate|]. intros _. simpl.
  destruct (widest_from b 1 (0, r0)) as [d0 r1]. eauto.
Qed.

(** [SplitSpace], run on its arguments. *)
Lemma SplitSpace_run (a : Args) :
  SplitSpace a =
    match widest (bound a) with
    | None => (Returned false, a)
    | Some (splitDim, r) =>
        if Qle_bool (extent r) 0
        then (Returned false, a)
        else (Returned true, set_hyp (MkHyperplane splitDim (Mid r)) a)
    end.
Proof.
  unfold SplitSpace, Exec.bind, Exec.reads. simpl.
  destruct (widest (bound a)) as [[d r]|]; [|reflexivity].
  destruct (Qle_bool (extent r) 0); reflexivity.
Qed.

(** ** Claims about the midpoint space split *)


(** C2 (split dimension and split value).  For a bound whose widest extent
    is strictly positive, a non-empty dataset and a non-empty point index
    set, [SplitSpace] returns [true] and the hyperplane it leaves in [hyp]
    has for direction a dimension [d] of maximal extent [max_d - min_d] of
    the bound, and for split value [(min_d + max_d) / 2]; on the bound
    [(0,10), (0,2), (0,5)] that is dimension 0 and split value 5. *)
Theorem SplitSpace_widest_midpoint (a : Args) (w : Q) :
  WidestExtentIs (bound a) w ->
  (0 < w)%Q ->
  data a <> [] ->
  points a <> [] ->
  (exists d r,
      nth_error (bound a) d = Some r /\
      (forall d' r', nth_error (bound a) d' = Some r' ->
                     (Hi r' - Lo r' <= Hi r - Lo r)%Q) /\
      fst (SplitSpace a) = Returned true /\
      Direction (hyp (snd (SplitSpace a))) = d /\
      (SplitVal (hyp (snd (SplitSpace a))) == (Lo r + Hi r) / 2)%Q) /\
  (bound a = bound_10_2_5 ->
   fst (SplitSpace a) = Returned true /\
   Direction (hyp (snd (SplitSpace a))) = 0 /\
   (SplitVal (hyp (snd (SplitSpace a))) == 5)%Q).
Proof.
  intros [(d1 & r1 & Hn1 & Hw1) _] Hpos _ _. split.
  - destruct (widest_some _ _ _ Hn1) as (d & r & Hwd).
    destruct (widest_spec _ _ _ Hwd) as (Hn & Hmax & _).
    exists d, r. split; [exact Hn|]. split; [exact Hmax|].
    rewrite SplitSpace_run, Hwd.
    destruct (Qle_bool (extent r) 0) eqn:Hdeg.
    + apply Qle_bool_iff in Hdeg. specialize (Hmax _ _ Hn1). lra.
    + simpl. split; [reflexivity|]. split; [reflexivity|].
      unfold Mid. apply Qeq_refl.
  - intros Hb. rewrite SplitSpace_run, Hb. simpl.
    repeat split; reflexivity.
Qed.

Lemma SplitSpace_widest_midpoint_witness :
  WidestExtentIs bound_10_2_5 10%Q /\
  (exists d r,
      nth_error bound_10_2_5 d = Some r /\
      (forall d' r', nth_error bound_10_2_5 d' = Some r' ->
                     (Hi r' - Lo r' <= Hi r - Lo r)%Q) /\
      fst (SplitSpace (example_args bound_10_2_5)) = Returned true /\
      Direction (hyp (snd (SplitSpace (example_args bound_10_2_5)))) = d /\
      (SplitVal (hyp (snd (SplitSpace (example_args bound_10_2_5))))
         == (Lo r + Hi r) / 2)%Q) /\
  fst (SplitSpace (example_args bound_10_2_5)) = Returned true /\
  Direction (hyp (snd (SplitSpace (example_args bound_10_2_5)))) = 0 /\
  (SplitVal (hyp (snd (SplitSpace (example_args bound_10_2_5)))) == 5)%Q.
Proof.
  assert (Hw : WidestExtentIs bound_10_2_5 10%Q).
  { split.
    - exists 0, (range 0 10). split; reflexivity.
    - intros [|[|[|d]]] r H; simpl in H;
        try (inversion H; subst r; vm_compute; discriminate).
      destruct d; discriminate. }
  split; [exact Hw|].
  destruct (SplitSpace_widest_midpoint (example_args bound_10_2_5) 10%Q Hw)
    as [Hgen Hex].
  - reflexivity.
  - discriminate.
  - discriminate.
  - split; [exact Hgen|]. exact (Hex eq_refl).
Defined.

(** C4 (degenerate split).  For a bound whose widest extent is zero,
    [SplitSpace] returns normally with the flag [false]: it neither aborts
    nor fails otherwise.  The single-point bound [(3,3), (4,4)] is such a
    bound. *)
Theorem SplitSpace_degenerate (a : Args) :
  WidestExtentIs (bound a) 0 ->
  fst (SplitSpace a) = Returned false.
Proof.
  intros [_ Hmax]. rewrite SplitSpace_run.
  destruct (widest (bound a)) as [[d r]|] eqn:Hwd; [|reflexivity].
  destruct (widest_spec _ _ _ Hwd) as (Hn & _ & _).
  specialize (Hmax _ _ Hn). apply Qle_bool_iff in Hmax.
  rewrite Hmax. reflexivity.
Qed.

Lemma SplitSpace_degenerate_witness :
  WidestExtentIs bound_point_3_4 0%Q /\
  fst (SplitSpace (example_args bound_point_3_4)) = Returned false.
Proof.
  assert (Hw : WidestExtentIs bound_point_3_4 0%Q).
  { split.
    - exists 0, (range 3 3). split; reflexivity.
    - intros [|[|d]] r H; simpl in H;
        try (inversion H; subst r; vm_compute; discriminate).
      destruct d; discriminate. }
  split; [exact Hw|].
  exact (SplitSpace_degenerate (example_args bound_point_3_4) Hw).
Defined.

(** C7 (tie-break).  When two dimensions [d1 < d2] share the maximal extent
    [max_d - min_d] of the bound, the dimension [SplitSpace] selects is the
    lowest-indexed dimension of maximal extent: it is at most [d1], has the
    maximal extent, and every dimension before it is strictly narrower.  The
    hyperplane [SplitSpace] leaves in [hyp] (it produces one when that
    extent is positive) has this dimension for direction; on the bound
    [(0,10), (0,10)] it is dimension 0. *)
Theorem SplitSpace_tie_break
    (a : Args) (d1 d2 : nat) (r1 r2 : Range) :
  d1 < d2 ->
  nth_error (bound a) d1 = Some r1 ->
  nth_error (bound a) d2 = Some r2 ->
  (Hi r1 - Lo r1 == Hi r2 - Lo r2)%Q ->
  (forall d r, nth_error (bound a) d = Some r ->
               (Hi r - Lo r <= Hi r1 - Lo r1)%Q) ->
  (exists d0 r0,
      widest (bound a) = Some (d0, r0) /\
      nth_error (bound a) d0 = Some r0 /\
      d0 <= d1 /\
      (Hi r0 - Lo r0 == Hi r1 - Lo r1)%Q /\
      (forall d r, d < d0 -> nth_error (bound a) d = Some r ->
                   (Hi r - Lo r < Hi r0 - Lo r0)%Q) /\
      ((0 < Hi r1 - Lo r1)%Q ->
       fst (SplitSpace a) = Returned true /\
       Direction (hyp (snd (SplitSpace a))) = d0 /\
       (SplitVal (hyp (snd (SplitSpace a))) == (Lo r0 + Hi r0) / 2)%Q)) /\
  (bound a = bound_10_10 ->
   fst (SplitSpace a) = Returned true /\
   Direction (hyp (snd (SplitSpace a))) = 0).
Proof.
  intros _ Hn1 _ _ Hmax1. split.
  - destruct (widest_some _ _ _ Hn1) as (d0 & r0 & Hwd).
    destruct (widest_spec _ _ _ Hwd) as (Hn & Hmax & Hlow).
    unfold extent in Hmax, Hlow.
    assert (Heq : (Hi r0 - Lo r0 == Hi r1 - Lo r1)%Q).
    { apply Qle_antisym; [apply (Hmax1 _ _ Hn)|apply (Hmax _ _ Hn1)]. }
    exists d0, r0.
    split; [exact Hwd|]. split; [exact Hn|]. split; [|split; [exact Heq|split]].
    + destruct (le_lt_dec d0 d1) as [|Hgt]; [assumption|].
      specialize (Hlow _ _ Hgt Hn1). lra.
    + exact Hlow.
    + intros Hpos. rewrite SplitSpace_run, Hwd.
      destruct (Qle_bool (extent r0) 0) eqn:Hdeg.
      * apply Qle_bool_iff in Hdeg. unfold extent in Hdeg. lra.
      * simpl. split; [reflexivity|]. split; [reflexivity|].
        unfold Mid. apply Qeq_refl.
  - intros Hb. rewrite SplitSpace_run, Hb. split; reflexivity.
Qed.

Lemma SplitSpace_tie_break_witness :
  (exists d0 r0,
      widest bound_10_10 = Some (d0, r0) /\
      nth_error bound_10_10 d0 = Some r0 /\
      d0 <= 0 /\
      (Hi r0 - Lo r0 == Hi (range 0 10) - Lo (range 0 10))%Q /\
      (forall d r, d < d0 -> nth_error bound_10_10 d = Some r ->
                   (Hi r - Lo r < Hi r0 - Lo r0)%Q) /\
      ((0 < Hi (range 0 10) - Lo (range 0 10))%Q ->
       fst (SplitSpace (example_args bound_10_10)) = Returned true /\
       Direction (hyp (snd (SplitSpace (example_args bound_10_10)))) = d0 /\
       (SplitVal (hyp (snd (SplitSpace (example_args bound_10_10))))
          == (Lo r0 + Hi r0) / 2)%Q)) /\
  fst (SplitSpace (example_args bound_10_10)) = Returned true /\
  Direction (hyp (snd (SplitSpace (example_args bound_10_10)))) = 0.
Proof.
  destruct (SplitSpace_tie_break (example_args bound_10_10) 0 1
              (range 0 10) (range 0 10)) as [Hgen Hex].
  - lia.
  - reflexivity.
  - reflexivity.
  - reflexivity.
  - intros [|[|d]] r H; simpl in H;
      try (inversion H; subst r; vm_compute; discriminate).
    destruct d; discriminate.
  - split; [exact Hgen|]. exact (Hex eq_refl).
Defined.

(** C9 (frame).  [SplitSpace] leaves the point index set as it was, and the
    bound and the dataset too: whatever the outcome, only the hyperplane can
    differ after the call. *)
Theorem SplitSpace_points_unchanged (a : Args) :
  points (snd (SplitSpace a)) = points a /\
  bound (snd (SplitSpace a)) = bound a /\
  data (snd (SplitSpace a)) = data a.
Proof.
  rewrite SplitSpace_run.
  destruct (widest (bound a)) as [[d r]|]; [|auto].
  destruct (Qle_bool (extent r) 0); auto.
Qed.

(** ** The shape checks of the LARS executable *)

Lemma trans_n_cols (m : Arma.Mat) :
  Arma.n_cols (Arma.trans m) = Arma.n_rows m.
Proof.
  unfold Arma.n_cols, Arma.trans. simpl. now rewrite length_map, length_seq.
Qed.

Lemma oriented_n_cols_row (matY : Arma.Mat) :
  Arma.n_rows matY = 1 -> Arma.n_cols (oriented matY) = 1.
Proof.
  intros H. unfold oriented. rewrite H. simpl. now rewrite trans_n_cols.
Qed.

Lemma oriented_n_elem (matY : Arma.Mat) :
  Arma.n_elem (oriented matY) = Arma.n_rows matY * Arma.n_cols matY.
Proof.
  unfold oriented. destruct (Arma.n_rows matY =? 1) eqn:H; [|reflexivity].
  apply Nat.eqb_eq in H. unfold Arma.n_elem. rewrite trans_n_cols.
  simpl. rewrite H. lia.
Qed.

Lemma well_formed_concat (m : Arma.Mat) :
  Arma.well_formed m ->
  length (concat (Arma.columns m)) = Arma.n_elem m.
Proof.
  unfold Arma.well_formed, Arma.n_elem, Arma.n_cols.
  destruct m as [r cs]. simpl. induction 1 as [|c cs Hc _ IH]; simpl.
  - lia.
  - rewrite length_app, IH, Hc. lia.
Qed.

(** The first column of the oriented responses holds every response, in the
    order of the matrix. *)
Lemma oriented_first_column (matY : Arma.Mat) (y : vec) :
  Arma.well_formed matY ->
  Arma.n_cols (oriented matY) <= 1 ->
  Arma.unsafe_col (oriented matY) 0 = Some y ->
  y = concat (Arma.columns matY).
Proof.
  intros Hwf Hle Hy. unfold oriented in *.
  destruct (Arma.n_rows matY =? 1) eqn:H.
  - apply Nat.eqb_eq in H. unfold Arma.unsafe_col, Arma.trans in Hy.
    simpl in Hy. rewrite H in Hy. simpl in Hy. inversion Hy as [Hy'].
    clear Hy Hy' Hle. unfold Arma.well_formed in Hwf. rewrite H in Hwf.
    induction Hwf as [|c cs Hc _ IH]; simpl; [reflexivity|].
    rewrite IH. destruct c as [|v [|? ?]]; simpl in *; try discriminate.
    reflexivity.
  - unfold Arma.unsafe_col, Arma.n_cols in *.
    destruct (Arma.columns matY) as [|c [|c' cs]]; simpl in *;
      try discriminate; try lia.
    inversion Hy. now rewrite app_nil_r.
Qed.

Lemma main_loaded
    (Load : String.string -> option Arma.Mat)
    (Solution : bool -> Q -> Q -> Arma.Mat -> vec -> vec)
    (params : LarsMain.Params) (matX matY : Arma.Mat) :
  Load (LarsMain.input_file params) = Some matX ->
  Load (LarsMain.responses_file params) = Some matY ->
  LarsMain.main Load Solution params =
    if 1 <? Arma.n_cols (oriented matY)
    then LarsMain.LogFatal msg_one_column_or_row
    else
      if negb (Arma.n_elem (oriented matY) =? Arma.n_cols matX)
      then LarsMain.LogFatal msg_number_of_responses
      else
        match Arma.unsafe_col (oriented matY) 0 with
        | None => LarsMain.ColumnOutOfBounds
        | Some y =>
            LarsMain.Saved (LarsMain.output_file params)
              (Solution (LarsMain.use_cholesky params)
                 (LarsMain.lambda1 params) (LarsMain.lambda2 params)
                 (Arma.trans matX) y)
        end.
Proof.
  intros HX HY. unfold LarsMain.main. cbv zeta. rewrite HX, HY. reflexivity.
Qed.

Lemma oriented_n_cols (matY : Arma.Mat) :
  Arma.n_cols (oriented matY) =
    if Arma.n_rows matY =? 1 then 1 else Arma.n_cols matY.
Proof.
  destruct (Arma.n_rows matY =? 1) eqn:H.
  - apply Nat.eqb_eq in H. now apply oriented_n_cols_row.
  - unfold oriented. now rewrite H.
Qed.

(** The oriented responses have no first column only when the responses
    have no column at all and not exactly one row. *)
Lemma oriented_no_column (matY : Arma.Mat) :
  Arma.unsafe_col (oriented matY) 0 = None <->
  Arma.n_rows matY <> 1 /\ Arma.n_cols matY = 0.
Proof.
  unfold Arma.unsafe_col. rewrite nth_error_None.
  fold (Arma.n_cols (oriented matY)). rewrite oriented_n_cols.
  destruct (Arma.n_rows matY =? 1) eqn:H.
  - apply Nat.eqb_eq in H. lia.
  - apply Nat.eqb_neq in H. lia.
Qed.

Lemma msgs_differ : msg_one_column_or_row <> msg_number_of_responses.
Proof. discriminate. Qed.

(** Transposing a one-row matrix of responses beforehand changes nothing of
    what the orientation step yields. *)
Lemma oriented_trans_row (matY : Arma.Mat) :
  Arma.well_formed matY ->
  Arma.n_rows matY = 1 ->
  oriented (Arma.trans matY) = oriented matY.
Proof.
  intros Hwf H1. unfold oriented at 2. rewrite H1. simpl.
  unfold oriented. change (Arma.n_rows (Arma.trans matY))
    with (Arma.n_cols matY).
  destruct (Arma.n_cols matY =? 1) eqn:Hc; [|reflexivity].
  apply Nat.eqb_eq in Hc. destruct matY as [r cs].
  unfold Arma.well_formed, Arma.n_cols in *. simpl in *. subst r.
  destruct cs as [|c [|c' cs]]; simpl in Hc; try discriminate.
  inversion Hwf as [|? ? Hlen _]; subst.
  destruct c as [|v [|? ?]]; simpl in Hlen; try discriminate.
  reflexivity.
Qed.

(** [main] saves a solution exactly when the oriented responses pass both
    checks and have a first column. *)
Lemma main_saved_iff
    (Load : String.string -> option Arma.Mat)
    (Solution : bool -> Q -> Q -> Arma.Mat -> vec -> vec)
    (params : LarsMain.Params) (matX matY : Arma.Mat)
    (file : String.string) (beta : vec) :
  Load (LarsMain.input_file params) = Some matX ->
  Load (LarsMain.responses_file params) = Some matY ->
  (LarsMain.main Load Solution params = LarsMain.Saved file beta <->
   exists y,
     Arma.unsafe_col (oriented matY) 0 = Some y /\
     Arma.n_cols (oriented matY) <= 1 /\
     Arma.n_elem (oriented matY) = Arma.n_cols matX /\
     file = LarsMain.output_file params /\
     beta = Solution (LarsMain.use_cholesky params) (LarsMain.lambda1 params)
              (LarsMain.lambda2 params) (Arma.trans matX) y).
Proof.
  intros HX HY. rewrite (main_loaded _ _ _ _ _ HX HY).
  destruct (1 <? Arma.n_cols (oriented matY)) eqn:Hc.
  - apply Nat.ltb_lt in Hc. split; [discriminate|].
    intros (y & _ & Hle & _). lia.
  - apply Nat.ltb_ge in Hc.
    destruct (Arma.n_elem (oriented matY) =? Arma.n_cols matX) eqn:He; simpl.
    + apply Nat.eqb_eq in He.
      destruct (Arma.unsafe_col (oriented matY) 0) as [y|].
      * split.
        -- intros H. inversion H. exists y. auto.
        -- intros (y' & Hy & _ & _ & -> & ->). inversion Hy. reflexivity.
      * split; [discriminate|]. intros (y' & Hy & _). discriminate.
    + apply Nat.eqb_neq in He. split; [discriminate|].
      intros (y & _ & _ & Heq & _). contradiction.
Qed.

(** ** Properties of the LARS executable *)

(** X1.  With both files loaded, [main] ends with the message "Only one
    column or row allowed in responses file!" exactly when the responses
    have more than one column and a number of rows other than one. *)
Theorem lars_main_one_column_or_row
    (Load : String.string -> option Arma.Mat)
    (Solution : bool -> Q -> Q -> Arma.Mat -> vec -> vec)
    (params : LarsMain.Params) (matX matY : Arma.Mat) :
  Load (LarsMain.input_file params) = Some matX ->
  Load (LarsMain.responses_file params) = Some matY ->
  (LarsMain.main Load Solution params
     = LarsMain.LogFatal msg_one_column_or_row <->
   Arma.n_rows matY <> 1 /\ 1 < Arma.n_cols matY).
Proof.
  intros HX HY. rewrite (main_loaded _ _ _ _ _ HX HY), oriented_n_cols.
  assert (Hrest :
    (if negb (Arma.n_elem (oriented matY) =? Arma.n_cols matX)
     then LarsMain.LogFatal msg_number_of_responses
     else
       match Arma.unsafe_col (oriented matY) 0 with
       | Some y =>
           LarsMain.Saved (LarsMain.output_file params)
             (Solution (LarsMain.use_cholesky params)
                (LarsMain.lambda1 params) (LarsMain.lambda2 params)
                (Arma.trans matX) y)
       | None => LarsMain.ColumnOutOfBounds
       end) <> LarsMain.LogFatal msg_one_column_or_row).
  { destruct (negb _).
    - intros H. apply msgs_differ. congruence.
    - destruct (Arma.unsafe_col _ 0); discriminate. }
  destruct (Arma.n_rows matY =? 1) eqn:Hr.
  - apply Nat.eqb_eq in Hr. simpl.
    split; [intros H; now apply Hrest in H|intros [H _]; contradiction].
  - apply Nat.eqb_neq in Hr.
    destruct (1 <? Arma.n_cols matY) eqn:Hc.
    + apply Nat.ltb_lt in Hc. tauto.
    + apply Nat.ltb_ge in Hc.
      split; [intros H; now apply Hrest in H|intros [_ H]; lia].
Qed.

Lemma lars_main_one_column_or_row_witness :
  LarsMain.main (example_Load example_X example_y_square) example_Solution
                example_params
    = LarsMain.LogFatal msg_one_column_or_row.
Proof.
  apply (lars_main_one_column_or_row
           (example_Load example_X example_y_square) example_Solution
           example_params example_X example_y_square).
  - reflexivity.
  - reflexivity.
  - unfold Arma.n_cols. simpl. split; [discriminate|lia].
Defined.

(** X2.  With both files loaded, [main] ends with the message "Number of
    responses must be equal to number of rows of X!" exactly when the
    responses have one row or at most one column, and their number of
    elements differs from the number of columns of the loaded covariates. *)
Theorem lars_main_number_of_responses
    (Load : String.string -> option Arma.Mat)
    (Solution : bool -> Q -> Q -> Arma.Mat -> vec -> vec)
    (params : LarsMain.Params) (matX matY : Arma.Mat) :
  Load (LarsMain.input_file params) = Some matX ->
  Load (LarsMain.responses_file params) = Some matY ->
  (LarsMain.main Load Solution params
     = LarsMain.LogFatal msg_number_of_responses <->
   (Arma.n_rows matY = 1 \/ Arma.n_cols matY <= 1) /\
   Arma.n_rows matY * Arma.n_cols matY <> Arma.n_cols matX).
Proof.
  intros HX HY.
  rewrite (main_loaded _ _ _ _ _ HX HY), oriented_n_cols, oriented_n_elem.
  assert (Hcount :
    forall e : LarsMain.exit,
      (forall m, e <> LarsMain.LogFatal m) ->
      ((if negb (Arma.n_rows matY * Arma.n_cols matY =? Arma.n_cols matX)
        then LarsMain.LogFatal msg_number_of_responses else e)
         = LarsMain.LogFatal msg_number_of_responses <->
       Arma.n_rows matY * Arma.n_cols matY <> Arma.n_cols matX)).
  { intros e He.
    destruct (Arma.n_rows matY * Arma.n_cols matY =? Arma.n_cols matX) eqn:E;
      simpl.
    - apply Nat.eqb_eq in E.
      split; [intros H; now apply He in H|intros H; contradiction].
    - apply Nat.eqb_neq in E. tauto. }
  assert (Hnot : forall m,
    match Arma.unsafe_col (oriented matY) 0 with
    | Some y =>
        LarsMain.Saved (LarsMain.output_file params)
          (Solution (LarsMain.use_cholesky params) (LarsMain.lambda1 params)
             (LarsMain.lambda2 params) (Arma.trans matX) y)
    | None => LarsMain.ColumnOutOfBounds
    end <> LarsMain.LogFatal m).
  { intros m. destruct (Arma.unsafe_col _ 0); discriminate. }
  destruct (Arma.n_rows matY =? 1) eqn:Hr.
  - apply Nat.eqb_eq in Hr. simpl. rewrite (Hcount _ Hnot). tauto.
  - apply Nat.eqb_neq in Hr.
    destruct (1 <? Arma.n_cols matY) eqn:Hc.
    + apply Nat.ltb_lt in Hc. split; [|intros [[H|H] _]; lia].
      intros H. exfalso. apply msgs_differ. congruence.
    + apply Nat.ltb_ge in Hc. rewrite (Hcount _ Hnot). tauto.
Qed.

Lemma lars_main_number_of_responses_witness :
  LarsMain.main (example_Load example_X_empty example_y_col) example_Solution
                example_params
    = LarsMain.LogFatal msg_number_of_responses.
Proof.
  apply (lars_main_number_of_responses
           (example_Load example_X_empty example_y_col) example_Solution
           example_params example_X_empty example_y_col).
  - reflexivity.
  - reflexivity.
  - unfold Arma.n_cols. simpl. split; [right; lia|lia].
Defined.

(** X3.  With both files loaded and well-formed responses, [main] saves a
    solution exactly when the responses are one row or one column whose
    number of elements is the number of columns of the loaded covariates;
    what it saves, to the output file, is the solver's answer on the
    transposed covariates and on the responses in the order of the matrix. *)
Theorem lars_main_saves
    (Load : String.string -> option Arma.Mat)
    (Solution : bool -> Q -> Q -> Arma.Mat -> vec -> vec)
    (params : LarsMain.Params) (matX matY : Arma.Mat)
    (file : String.string) (beta : vec) :
  Load (LarsMain.input_file params) = Some matX ->
  Load (LarsMain.responses_file params) = Some matY ->
  Arma.well_formed matY ->
  (LarsMain.main Load Solution params = LarsMain.Saved file beta <->
   (Arma.n_rows matY = 1 \/ Arma.n_cols matY = 1) /\
   Arma.n_rows matY * Arma.n_cols matY = Arma.n_cols matX /\
   file = LarsMain.output_file params /\
   beta = Solution (LarsMain.use_cholesky params) (LarsMain.lambda1 params)
            (LarsMain.lambda2 params) (Arma.trans matX)
            (concat (Arma.columns matY))).
Proof.
  intros HX HY Hwf. rewrite (main_saved_iff _ _ _ _ _ _ _ HX HY).
  rewrite oriented_n_elem. split.
  - intros (y & Hy & Hle & He & Hf & Hb).
    rewrite (oriented_first_column _ _ Hwf Hle Hy) in Hb.
    repeat split; auto.
    destruct (Nat.eq_dec (Arma.n_rows matY) 1) as [|Hr]; [now left|right].
    rewrite oriented_n_cols in Hle.
    destruct (Arma.n_rows matY =? 1) eqn:E;
      [apply Nat.eqb_eq in E; contradiction|].
    destruct (Nat.eq_dec (Arma.n_cols matY) 0) as [H0|]; [|lia].
    rewrite (proj2 (oriented_no_column matY) (conj Hr H0)) in Hy.
    discriminate.
  - intros (Hshape & He & Hf & Hb).
    assert (Hle : Arma.n_cols (oriented matY) <= 1).
    { rewrite oriented_n_cols.
      destruct (Arma.n_rows matY =? 1) eqn:E; [lia|].
      apply Nat.eqb_neq in E. lia. }
    destruct (Arma.unsafe_col (oriented matY) 0) as [y|] eqn:Hy.
    + exists y. rewrite (oriented_first_column _ _ Hwf Hle Hy). auto.
    + apply oriented_no_column in Hy. lia.
Qed.

Lemma example_y_row_well_formed : Arma.well_formed example_y_row.
Proof. repeat constructor. Qed.

Lemma lars_main_saves_witness :
  LarsMain.main (example_Load example_X example_y_row) example_Solution
                example_params
    = LarsMain.Saved (LarsMain.output_file example_params)
                     [7 # 1; 8 # 1; 9 # 1]%Q.
Proof.
  apply (lars_main_saves
           (example_Load example_X example_y_row) example_Solution
           example_params example_X example_y_row).
  - reflexivity.
  - reflexivity.
  - exact example_y_row_well_formed.
  - repeat split. left. reflexivity.
Defined.

(** X4.  Whenever [main] saves a solution, the solver was given a matrix
    with exactly as many rows as it was given responses. *)
Theorem lars_main_solver_shapes
    (Load : String.string -> option Arma.Mat)
    (Solution : bool -> Q -> Q -> Arma.Mat -> vec -> vec)
    (params : LarsMain.Params) (matX matY : Arma.Mat)
    (file : String.string) (beta : vec) :
  Load (LarsMain.input_file params) = Some matX ->
  Load (LarsMain.responses_file params) = Some matY ->
  Arma.well_formed matY ->
  LarsMain.main Load Solution params = LarsMain.Saved file beta ->
  exists y,
    beta = Solution (LarsMain.use_cholesky params) (LarsMain.lambda1 params)
             (LarsMain.lambda2 params) (Arma.trans matX) y /\
    length y = Arma.n_rows (Arma.trans matX).
Proof.
  intros HX HY Hwf Hrun.
  apply (main_saved_iff _ _ _ _ _ _ _ HX HY) in Hrun.
  destruct Hrun as (y & Hy & Hle & He & _ & Hb).
  exists y. split; [exact Hb|].
  rewrite (oriented_first_column _ _ Hwf Hle Hy), (well_formed_concat _ Hwf).
  rewrite oriented_n_elem in He. exact He.
Qed.

Lemma lars_main_solver_shapes_witness :
  exists y,
    [7 # 1; 8 # 1; 9 # 1]%Q =
      example_Solution false 0%Q 0%Q (Arma.trans example_X) y /\
    length y = Arma.n_rows (Arma.trans example_X).
Proof.
  apply (lars_main_solver_shapes
           (example_Load example_X example_y_row) example_Solution
           example_params example_X example_y_row
           (LarsMain.output_file example_params)).
  - reflexivity.
  - reflexivity.
  - exact example_y_row_well_formed.
  - reflexivity.
Defined.

(** X5.  Responses given as one row and the same responses given as one
    column are treated alike: with the same covariates, loading a one-row
    matrix or its transpose as the responses ends [main] the same way. *)
Theorem lars_main_row_or_column
    (Load1 Load2 : String.string -> option Arma.Mat)
    (Solution : bool -> Q -> Q -> Arma.Mat -> vec -> vec)
    (params : LarsMain.Params) (matX matY : Arma.Mat) :
  Load1 (LarsMain.input_file params) = Some matX ->
  Load2 (LarsMain.input_file params) = Some matX ->
  Load1 (LarsMain.responses_file params) = Some matY ->
  Load2 (LarsMain.responses_file params) = Some (Arma.trans matY) ->
  Arma.well_formed matY ->
  Arma.n_rows matY = 1 ->
  LarsMain.main Load1 Solution params = LarsMain.main Load2 Solution params.
Proof.
  intros HX1 HX2 HY1 HY2 Hwf Hrow.
  rewrite (main_loaded _ _ _ _ _ HX1 HY1), (main_loaded _ _ _ _ _ HX2 HY2).
  rewrite (oriented_trans_row _ Hwf Hrow). reflexivity.
Qed.

Lemma lars_main_row_or_column_witness :
  LarsMain.main (example_Load example_X example_y_row) example_Solution
                example_params =
  LarsMain.main (example_Load example_X example_y_col) example_Solution
                example_params.
Proof.
  apply (lars_main_row_or_column
           (example_Load example_X example_y_row)
           (example_Load example_X example_y_col)
           example_Solution example_params example_X example_y_row).
  - reflexivity.
  - reflexivity.
  - reflexivity.
  - reflexivity.
  - exact example_y_row_well_formed.
  - reflexivity.
Defined.

(** X6.  Empty responses slip through both checks: with both files loaded,
    [main] reaches [unsafe_col(0)] on a matrix without columns exactly when
    the responses have no column and not exactly one row, and the loaded
    covariates have no column either. *)
Theorem lars_main_empty_responses
    (Load : String.string -> option Arma.Mat)
    (Solution : bool -> Q -> Q -> Arma.Mat -> vec -> vec)
    (params : LarsMain.Params) (matX matY : Arma.Mat) :
  Load (LarsMain.input_file params) = Some matX ->
  Load (LarsMain.responses_file params) = Some matY ->
  (LarsMain.main Load Solution params = LarsMain.ColumnOutOfBounds <->
   Arma.n_rows matY <> 1 /\ Arma.n_cols matY = 0 /\ Arma.n_cols matX = 0).
Proof.
  intros HX HY. rewrite (main_loaded _ _ _ _ _ HX HY).
  pose proof (oriented_no_column matY) as Hnone.
  rewrite oriented_n_cols, oriented_n_elem.
  destruct (Arma.n_rows matY =? 1) eqn:Hr.
  - apply Nat.eqb_eq in Hr. simpl. split; [|intros [H _]; contradiction].
    destruct (negb _); [discriminate|].
    destruct (Arma.unsafe_col (oriented matY) 0) as [y|]; [discriminate|].
    intros _. destruct (proj1 Hnone eq_refl) as [H _]. contradiction.
  - apply Nat.eqb_neq in Hr.
    destruct (1 <? Arma.n_cols matY) eqn:Hc.
    + apply Nat.ltb_lt in Hc. split; [discriminate|lia].
    + apply Nat.ltb_ge in Hc.
      destruct (Arma.n_rows matY * Arma.n_cols matY =? Arma.n_cols matX)
        eqn:He; simpl.
      * apply Nat.eqb_eq in He.
        destruct (Arma.unsafe_col (oriented matY) 0) as [y|].
        -- split; [discriminate|]. intros (_ & H0 & _).
           destruct Hnone as [_ Hnone].
           specialize (Hnone (conj Hr H0)). discriminate.
        -- split; [|reflexivity]. intros _.
           destruct (proj1 Hnone eq_refl) as [_ H0]. rewrite H0 in He. lia.
      * apply Nat.eqb_neq in He. split; [discriminate|].
        intros (_ & H0 & HX0). rewrite H0, HX0 in He. lia.
Qed.

Lemma lars_main_empty_responses_witness :
  LarsMain.main (example_Load example_X_empty example_y_empty)
                example_Solution example_params
    = LarsMain.ColumnOutOfBounds.
Proof.
  apply (lars_main_empty_responses
           (example_Load example_X_empty example_y_empty) example_Solution
           example_params example_X_empty example_y_empty).
  - reflexivity.
  - reflexivity.
  - unfold Arma.n_cols. simpl. repeat split. discriminate.
Defined.

(** ** Further properties of the descent heuristic *)

(** X7.  On a node with at least one child, every index [ChooseDescentNode]
    returns is the index of a child, with assertions enabled or compiled
    out, whether or not some child's outer bound contains the point. *)
Theorem ChooseDescentNode_result_in_range
    (NDEBUG : bool) (node node' : TreeType) (point k : nat) :
  0 < NumChildren node ->
  ChooseDescentNode NDEBUG point node = (Returned k, node') ->
  k < NumChildren node.
Proof.
  intros Hpos Hrun. rewrite ChooseDescentNode_scan in Hrun.
  pose proof (f_equal fst Hrun) as Hk. simpl in Hk. clear Hrun.
  destruct (col (Dataset node) point) as [x|].
  - destruct (scan_returns (Children node) x 0) as [[j|] Hr];
      rewrite Hr in Hk; simpl in Hk.
    + inversion Hk; subst j.
      destruct (scan_found _ _ _ _ Hr) as (j & c & -> & Hn & _).
      simpl. unfold NumChildren. apply nth_error_Some. congruence.
    + destruct NDEBUG; [|discriminate]. inversion Hk; subst k. exact Hpos.
  - unfold NumChildren in Hpos.
    destruct (Children node) as [|c cs]; simpl in *; [lia|discriminate].
Qed.

Lemma ChooseDescentNode_result_in_range_witness :
  1 < NumChildren example_node.
Proof.
  apply (ChooseDescentNode_result_in_range false example_node example_node 0 1).
  - unfold NumChildren. simpl. lia.
  - reflexivity.
Defined.

(** X8.  With assertions enabled, an index [ChooseDescentNode] returns is
    always that of a child whose outer bound contains the point, and of the
    first such child; the point is then a point of the dataset and the tree
    is unchanged.  No invariant on the children's bounds is needed. *)
Theorem ChooseDescentNode_checked_result
    (node node' : TreeType) (point k : nat) :
  ChooseDescentNode false point node = (Returned k, node') ->
  node' = node /\
  exists x,
    col (Dataset node) point = Some x /\
    ChildContains node k x /\
    forall j, j < k -> ~ ChildContains node j x.
Proof.
  intros Hrun. rewrite ChooseDescentNode_scan in Hrun.
  pose proof (f_equal fst Hrun) as Hk. simpl in Hk.
  pose proof (f_equal snd Hrun) as Hnode. simpl in Hnode. clear Hrun.
  split; [now symmetry|].
  destruct (col (Dataset node) point) as [x|].
  - exists x. split; [reflexivity|].
    destruct (scan_returns (Children node) x 0) as [[j|] Hr];
      rewrite Hr in Hk; simpl in Hk; [|discriminate].
    inversion Hk; subst j.
    destruct (scan_found _ _ _ _ Hr) as (j & c & -> & Hn & Hc & Hbefore).
    simpl. split.
    + exists c. split; assumption.
    + intros j' Hj' (c' & Hn' & Hc').
      rewrite (Hbefore j' c' Hj' Hn') in Hc'. discriminate.
  - destruct (Children node) as [|c cs]; simpl in Hk; discriminate.
Qed.

Lemma ChooseDescentNode_checked_result_witness :
  example_node = example_node /\
  exists x,
    col (Dataset example_node) 0 = Some x /\
    ChildContains example_node 1 x /\
    forall j, j < 1 -> ~ ChildContains example_node j x.
Proof.
  apply (ChooseDescentNode_checked_result example_node example_node 0 1).
  reflexivity.
Defined.
